(** * The DSE broker sync hook ([use-sync-dse-broker-data.ts])

    A shallow embedding of [useSyncDseBrokerData] and of the two callbacks
    it hands to the mutation primitive, followed by the properties of its
    notifications. *)

From stdpp Require Import gmap strings list fin_maps.

(** ** JavaScript values *)

(** The value a rejected call carries is untyped at run time: anything can
    be thrown.  Primitives, ordinary objects with their own properties, and
    instances of [Error] (objects whose prototype chain reaches
    [Error.prototype]: [new Error(m)], [new TypeError(m)], instances of
    subclasses) are told apart.  The [Error] interface declares
    [name: string] and [message: string], hence the typed fields of
    [JsError]; its remaining own properties are kept in [props]. *)
Module Js.

#[local] Set Warnings "-register-all".

Inductive Value : Type :=
| JsUndefined
| JsNull
| JsBoolean (b : bool)
| JsNumber (n : Z)
| JsString (s : string)
| JsObject (props : list (string * Value))
| JsError (name message : string) (props : list (string * Value)).

(** First binding of [key] among the own properties of an object. *)
Fixpoint get_own (key : string) (props : list (string * Value))
    : option Value :=
  match props with
  | [] => None
  | (k, v) :: rest => if String.eqb k key then Some v else get_own key rest
  end.

(** [v instanceof Error]: false on every primitive and on every object
    whose prototype chain does not reach [Error.prototype]. *)
Definition instanceof_Error (v : Value) : bool :=
  match v with
  | JsError _ _ _ => true
  | _ => false
  end.

(** The [message] field a value carries, if any. *)
Definition message_field (v : Value) : option Value :=
  match v with
  | JsError _ message _ => Some (JsString message)
  | JsObject props => get_own "message" props
  | _ => None
  end.

(** The value carries a textual [message] field holding [m]. *)
Definition has_textual_message (v : Value) (m : string) : Prop :=
  message_field v = Some (JsString m).

(** A bare value: a primitive, not an object. *)
Definition bare (v : Value) : bool :=
  match v with
  | JsObject _ | JsError _ _ _ => false
  | _ => true
  end.

End Js.

(** ** The toast interface *)

Module Toast.

(** The second argument of a toast call: [{ id: ... }] or nothing. *)
Record Options : Type := { id : option string }.

Definition no_options : Options := {| id := None |}.

(** The calls of the toast interface: [toast.loading(message, options)],
    [toast.error(message, options)] and [toast.dismiss(id)]. *)
Inductive Call : Type :=
| loading (message : string) (options : Options)
| error (message : string) (options : Options)
| dismiss (key : string).

(** The identifier a call passes, if any. *)
Definition call_id (c : Call) : option string :=
  match c with
  | loading _ options | error _ options => id options
  | dismiss k => Some k
  end.

Definition is_dismiss (c : Call) : bool :=
  match c with dismiss _ => true | _ => false end.

(** A notification: a severity and a display text. *)
Inductive Severity : Type := Loading | Error.

Record Notification : Type := { severity : Severity; text : string }.

(** A notification is identified by the key its caller chose or by a
    number drawn from a counter. *)
Definition Key : Type := string + nat.

(** Modelled from the spec: the state of the notification subsystem
    behind [toast] (package [@wealthfolio/ui], outside this file): a
    process-wide registry, a mapping from key to current notification
    state. *)
Record Store : Type := {
  registry : gmap Key Notification;
  counter : nat
}.

Definition empty : Store := {| registry := ∅; counter := 0 |}.

(** Modelled from the spec: emitting a notification.  A write with a key
    updates or inserts the entry under that key, superseding the prior
    one; a notification emitted without a key gets an identifier of its
    own. *)
Definition show (sev : Severity) (message : string) (options : Options)
    (st : Store) : Store :=
  let n := {| severity := sev; text := message |} in
  match id options with
  | Some k =>
      {| registry := <[inl k := n]> (registry st); counter := counter st |}
  | None =>
      {| registry := <[inr (counter st) := n]> (registry st);
         counter := S (counter st) |}
  end.

(** Modelled from the spec: the effect of each call of the interface on
    the registry; dismissing removes the entry under the key. *)
Definition apply (st : Store) (c : Call) : Store :=
  match c with
  | loading message options => show Loading message options st
  | error message options => show Error message options st
  | dismiss k =>
      {| registry := delete (inl k) (registry st); counter := counter st |}
  end.

Definition apply_all (st : Store) (cs : list Call) : Store := foldl apply st cs.

(** Every numbered key in use is below the counter. *)
Definition wf (st : Store) : Prop :=
  ∀ n, is_Some (registry st !! (inr n : Key)) → n < counter st.

End Toast.

(** ** The mutation primitive *)

Module Mutation.

(** The external calls a mutation function can stand for. *)
Inductive Service : Type := syncDseBrokerData.

(** A callback returns nothing; what it does is the toast calls it makes,
    in order. *)
Definition Callback : Type := Js.Value → list Toast.Call.

(** The configuration handed to the primitive; a field left out is
    [None]. *)
Record Options : Type := {
  mutationFn : Service;
  onSuccess : option Callback;
  onError : option Callback;
  retry : option nat
}.

(** How the asynchronous call settles: the choice of the environment. *)
Inductive Outcome : Type :=
| Resolved (data : Js.Value)
| Rejected (error : Js.Value).

(** One invocation of the trigger: pending, with the failures seen so far,
    then succeeded or failed; the failure is kept as the error field. *)
Inductive Status : Type :=
| Pending (failureCount : nat)
| Success (data : Js.Value)
| Failed (error : Js.Value).

Definition settled (st : Status) : bool :=
  match st with Pending _ => false | _ => true end.

(** The hook and what it acts on: the invocations of the trigger made so
    far, with their status; the calls issued to the service; the toast
    calls made, each with the index of the invocation it was made for;
    the notification store. *)
Record State : Type := {
  invocations : list Status;
  issued : list Service;
  trace : list (nat * Toast.Call);
  store : Toast.Store
}.

Definition init : State :=
  {| invocations := []; issued := []; trace := []; store := Toast.empty |}.

(** How a call of the trigger ends for its caller. *)
Inductive Completion : Type :=
| Normal
| Throw (v : Js.Value).

(** What moves the hook: the trigger is invoked, or the call issued by
    invocation [i] settles. *)
Inductive Event : Type :=
| Mutate
| Settle (i : nat) (o : Outcome).

Definition run_callback (cb : option Callback) (v : Js.Value)
    : list Toast.Call :=
  match cb with
  | Some f => f v
  | None => []
  end.

(** The state after invocation [i] has reached its final status [st] and
    its callback has made the calls [cs]. *)
Definition finish (s : State) (i : nat) (st : Status) (cs : list Toast.Call)
    : State :=
  {| invocations := <[i := st]> (invocations s);
     issued := issued s;
     trace := trace s ++ map (pair i) cs;
     store := Toast.apply_all (store s) cs |}.

(** Modelled from the spec: the trigger of the generic mutation primitive
    (the library [@tanstack/react-query], outside this file).  Invoking it
    issues the wrapped call and returns at once, without throwing: the
    invocation is pending, and its outcome is delivered later. *)
Definition invoke (opts : Options) (s : State) : Completion * State :=
  (Normal,
   {| invocations := invocations s ++ [Pending 0];
      issued := issued s ++ [mutationFn opts];
      trace := trace s;
      store := store s |}).

(** Modelled from the spec: what the scheduler runs when the call of
    invocation [i] settles: pending → succeeded with the success handler,
    or pending → failed with the error handler.  A rejected call is issued
    again only while the failure count is below the [retry] option, which
    is zero when left out. *)
Definition complete (opts : Options) (s : State) (i : nat) (o : Outcome)
    : option State :=
  match invocations s !! i with
  | Some (Pending failureCount) =>
      match o with
      | Resolved data =>
          Some (finish s i (Success data) (run_callback (onSuccess opts) data))
      | Rejected error =>
          if failureCount <? default 0 (retry opts) then
            Some {| invocations :=
                      <[i := Pending (S failureCount)]> (invocations s);
                    issued := issued s ++ [mutationFn opts];
                    trace := trace s;
                    store := store s |}
          else
            Some (finish s i (Failed error) (run_callback (onError opts) error))
      end
  | _ => None
  end.

(** What the primitive hands back: the trigger, and the continuation of
    its calls. *)
Record Result : Type := {
  mutate : State → Completion * State;
  settle : State → nat → Outcome → option State
}.

(** Modelled from the spec: the generic mutation primitive, a function
    call wrapped with a success and an error handler. *)
Definition useMutation (opts : Options) : Result :=
  {| mutate := invoke opts; settle := complete opts |}.

(** One step of the hook; [None] when the event cannot happen: a call
    settles once, and only after it was issued. *)
Definition step (m : Result) (s : State) (ev : Event) : option State :=
  match ev with
  | Mutate => Some (snd (mutate m s))
  | Settle i o => settle m s i o
  end.

Fixpoint run (m : Result) (s : State) (evs : list Event) : option State :=
  match evs with
  | [] => Some s
  | ev :: rest =>
      match step m s ev with
      | Some s' => run m s' rest
      | None => None
      end
  end.

(** The states of the executions that start before any invocation. *)
Definition reachable (m : Result) (s : State) : Prop :=
  ∃ evs, run m init evs = Some s.

(** The toast calls made on behalf of invocation [i], in order. *)
Definition calls_of (i : nat) (tr : list (nat * Toast.Call))
    : list Toast.Call :=
  map snd (filter (λ p, fst p = i) tr).

End Mutation.

Import Mutation.

(** ** The hook *)

(** [onSuccess: () => { toast.loading("Syncing DSE broker data...",
    { id: "dse-broker-sync-start" }); }] *)
Definition onSuccess : Callback :=
  λ _, [Toast.loading "Syncing DSE broker data..."
          {| Toast.id := Some "dse-broker-sync-start" |}].

(** [onError: (error) => { toast.error(`Failed to start DSE sync:
    ${error instanceof Error ? error.message : "Unknown error"}`); }]:
    the test narrows [error] to an [Error], whose [message] is read. *)
Definition onError : Callback :=
  λ error,
    [Toast.error
       ("Failed to start DSE sync: " +:+
          match error with
          | Js.JsError _ message _ => message
          | _ => "Unknown error"
          end)
       Toast.no_options].

(** [useMutation({ mutationFn: syncDseBrokerData, onSuccess, onError })];
    no [retry] is given. *)
Definition useSyncDseBrokerData : Result :=
  useMutation
    {| mutationFn := syncDseBrokerData;
       Mutation.onSuccess := Some onSuccess;
       Mutation.onError := Some onError;
       retry := None |}.

(** What an invocation in status [st] is expected to have emitted. *)
Definition expected_calls (st : option Status) : list Toast.Call :=
  match st with
  | Some (Success data) => onSuccess data
  | Some (Failed error) => onError error
  | _ => []
  end.

(** The invariant of the executions of the hook. *)
Record Inv (s : State) : Prop := {
  inv_calls : ∀ i,
    calls_of i (trace s)
    = expected_calls (invocations s !! i);
  inv_issued : length (issued s) = length (invocations s);
  inv_no_dismiss :
    Forall (λ p, Toast.is_dismiss (snd p) = false) (trace s);
  inv_store : Toast.wf (store s)
}.

(** The number of times the trigger is invoked in a sequence of events. *)
Fixpoint count_mutate (evs : list Event) : nat :=
  match evs with
  | [] => 0
  | Mutate :: rest => S (count_mutate rest)
  | Settle _ _ :: rest => count_mutate rest
  end.

(** The calls by which an outcome reaches the user. *)
Definition surfaced (o : Outcome) : list Toast.Call :=
  match o with
  | Resolved data => onSuccess data
  | Rejected error => onError error
  end.

(** The event settles an invocation with a failure. *)
Definition is_rejection (ev : Event) : bool :=
  match ev with
  | Settle _ (Rejected _) => true
  | _ => false
  end.


(** The event with the data of a resolved call replaced by [undefined]. *)
Definition forget_data (ev : Event) : Event :=
  match ev with
  | Settle i (Resolved _) => Settle i (Resolved Js.JsUndefined)
  | _ => ev
  end.

(** The status with the data of a success replaced by [undefined]. *)
Definition forget_status (st : Status) : Status :=
  match st with
  | Success _ => Success Js.JsUndefined
  | _ => st
  end.

(** Two states that differ at most in the data kept by succeeded
    invocations. *)
Definition same_but_data (s t : State) : Prop :=
  forget_status <$> invocations s = forget_status <$> invocations t
  ∧ issued s = issued t
  ∧ trace s = trace t
  ∧ store s = store t.


(** ** The hook on sample inputs *)

Section Examples.

Example onError_Error :
  onError (Js.JsError "Error" "network down" [])
  = [Toast.error "Failed to start DSE sync: network down" Toast.no_options].
Proof. reflexivity. Qed.

Example onError_subclass :
  onError (Js.JsError "TypeError" "Load failed" [("cause", Js.JsNull)])
  = [Toast.error "Failed to start DSE sync: Load failed" Toast.no_options].
Proof. reflexivity. Qed.

Example onError_string :
  onError (Js.JsString "network down")
  = [Toast.error "Failed to start DSE sync: Unknown error" Toast.no_options].
Proof. reflexivity. Qed.

Example onError_undefined :
  onError Js.JsUndefined
  = [Toast.error "Failed to start DSE sync: Unknown error" Toast.no_options].
Proof. reflexivity. Qed.

Example onError_plain_object :
  onError (Js.JsObject [("message", Js.JsString "network down")])
  = [Toast.error "Failed to start DSE sync: Unknown error" Toast.no_options].
Proof. reflexivity. Qed.

(** Two invocations in flight; the second settles first. *)
Example two_invocations :
  let evs := [Mutate; Mutate; Settle 1 (Resolved Js.JsUndefined);
              Settle 0 (Rejected (Js.JsString "offline"))] in
  trace <$> run useSyncDseBrokerData init evs
  = Some [(1, Toast.loading "Syncing DSE broker data..."
                {| Toast.id := Some "dse-broker-sync-start" |});
          (0, Toast.error "Failed to start DSE sync: Unknown error"
                Toast.no_options)]
  ∧ issued <$> run useSyncDseBrokerData init evs
    = Some [syncDseBrokerData; syncDseBrokerData]
  ∧ invocations <$> run useSyncDseBrokerData init evs
    = Some [Failed (Js.JsString "offline"); Success Js.JsUndefined].
Proof. repeat split. Qed.

(** An invocation settles once, and only after it was made. *)
Example settles_once :
  run useSyncDseBrokerData init
    [Mutate; Settle 0 (Resolved Js.JsUndefined); Settle 0 (Rejected Js.JsNull)]
  = None
  ∧ run useSyncDseBrokerData init [Settle 0 (Resolved Js.JsUndefined)] = None.
Proof. split; reflexivity. Qed.

(** With a [retry] option the primitive issues a rejected call again and
    runs no handler yet; the hook gives none. *)
Example retry_given :
  let m := useMutation {| mutationFn := syncDseBrokerData;
                          Mutation.onSuccess := Some onSuccess;
                          Mutation.onError := Some onError;
                          retry := Some 1 |} in
  let evs := [Mutate; Settle 0 (Rejected Js.JsNull)] in
  issued <$> run m init evs = Some [syncDseBrokerData; syncDseBrokerData]
  ∧ trace <$> run m init evs = Some []
  ∧ issued <$> run useSyncDseBrokerData init evs = Some [syncDseBrokerData].
Proof. repeat split. Qed.

(** The registry after two successes and two failures: one loading
    notification under its key, two error notifications. *)
Example registry_after_four :
  let e := Js.JsError "Error" "network down" [] in
  let evs := [Mutate; Mutate; Mutate; Mutate;
              Settle 0 (Resolved Js.JsUndefined); Settle 1 (Rejected e);
              Settle 2 (Resolved Js.JsUndefined); Settle 3 (Rejected e)] in
  (λ s, let r := Toast.registry (store s) in
        (size r,
         r !! (inl "dse-broker-sync-start" : Toast.Key),
         r !! (inr 0 : Toast.Key),
         r !! (inr 1 : Toast.Key)))
    <$> run useSyncDseBrokerData init evs
  = Some (3,
          Some {| Toast.severity := Toast.Loading;
                  Toast.text := "Syncing DSE broker data..." |},
          Some {| Toast.severity := Toast.Error;
                  Toast.text := "Failed to start DSE sync: network down" |},
          Some {| Toast.severity := Toast.Error;
                  Toast.text := "Failed to start DSE sync: network down" |}).
Proof. vm_compute. reflexivity. Qed.

End Examples.

(** ** The steps of the hook *)

Section Steps.

Implicit Types (s : State) (i : nat) (e d : Js.Value).

Lemma calls_of_app i (tr1 tr2 : list (nat * Toast.Call)) :
  calls_of i (tr1 ++ tr2)
  = calls_of i tr1 ++ calls_of i tr2.
Proof. unfold calls_of. by rewrite filter_app, map_app. Qed.

Lemma calls_of_tagged i j (cs : list Toast.Call) :
  calls_of i (map (pair j) cs) = if decide (j = i) then cs else [].
Proof.
  unfold calls_of.
  induction cs as [|c cs IH]; simpl.
  - by case_decide.
  - rewrite filter_cons. simpl.
    destruct (decide (j = i)) as [Hji|Hji]; simpl; by rewrite IH.
Qed.

Lemma step_mutate s :
  step useSyncDseBrokerData s Mutate
  = Some {| invocations := invocations s ++ [Pending 0];
            issued := issued s ++ [syncDseBrokerData];
            trace := trace s;
            store := store s |}.
Proof. reflexivity. Qed.

Lemma step_resolved s i d s' :
  step useSyncDseBrokerData s (Settle i (Resolved d)) = Some s' →
  (∃ n, invocations s !! i = Some (Pending n))
  ∧ s' = finish s i (Success d) (onSuccess d).
Proof.
  simpl. unfold complete.
  destruct (invocations s !! i) as [[n| |]|]; try discriminate.
  intros [= <-]. eauto.
Qed.

Lemma step_rejected s i e s' :
  step useSyncDseBrokerData s (Settle i (Rejected e)) = Some s' →
  (∃ n, invocations s !! i = Some (Pending n))
  ∧ s' = finish s i (Failed e) (onError e).
Proof.
  simpl. unfold complete.
  destruct (invocations s !! i) as [[n| |]|]; try discriminate.
  simpl. intros [= <-]. eauto.
Qed.

Lemma step_settle s i o s' :
  step useSyncDseBrokerData s (Settle i o) = Some s' →
  ∃ n st, invocations s !! i = Some (Pending n)
    ∧ settled st = true
    ∧ s' = finish s i st (expected_calls (Some st)).
Proof.
  destruct o as [d|e]; intros H.
  - apply step_resolved in H as [[n Hn] ->]. by exists n, (Success d).
  - apply step_rejected in H as [[n Hn] ->]. by exists n, (Failed e).
Qed.

(** A property that every step preserves holds at the end of a run. *)
Lemma run_preserves (P : State → Prop) :
  (∀ s ev s', P s → step useSyncDseBrokerData s ev = Some s' → P s') →
  ∀ evs s s', P s → run useSyncDseBrokerData s evs = Some s' → P s'.
Proof.
  intros Hstep evs. induction evs as [|ev evs IH]; intros s s' HP; simpl.
  - by intros [= <-].
  - destruct (step useSyncDseBrokerData s ev) as [s1|] eqn:E; [|done].
    apply IH. by eapply Hstep.
Qed.

End Steps.

(** Case analysis on the first step of a run in the goal. *)
Ltac first_step E :=
  match goal with
  | |- context [step ?m ?s ?ev] => destruct (step m s ev) eqn:E; [|done]
  end.

(** ** The store under the calls of the hook *)

Section Store.

Implicit Types (st : Toast.Store) (c : Toast.Call).

Lemma wf_empty : Toast.wf Toast.empty.
Proof. intros n [x Hx]. simpl in Hx. by rewrite lookup_empty in Hx. Qed.

Lemma wf_apply st c : Toast.wf st → Toast.wf (Toast.apply st c).
Proof.
  intros Hwf n.
  destruct c as [m [[k|]]|m [[k|]]|k]; simpl; unfold Toast.show; simpl.
  - rewrite lookup_insert_ne by done. apply Hwf.
  - destruct (decide (Toast.counter st = n)) as [->|Hne].
    + lia.
    + rewrite lookup_insert_ne by congruence. intros H. apply Hwf in H. lia.
  - rewrite lookup_insert_ne by done. apply Hwf.
  - destruct (decide (Toast.counter st = n)) as [->|Hne].
    + lia.
    + rewrite lookup_insert_ne by congruence. intros H. apply Hwf in H. lia.
  - rewrite lookup_delete_ne by done. apply Hwf.
Qed.

Lemma wf_apply_all st (cs : list Toast.Call) :
  Toast.wf st → Toast.wf (Toast.apply_all st cs).
Proof.
  unfold Toast.apply_all. revert st.
  induction cs as [|c cs IH]; intros st Hwf; simpl; [done|].
  apply IH. by apply wf_apply.
Qed.

(** A notification shown without a key takes a slot nothing else holds. *)
Lemma counter_fresh st :
  Toast.wf st →
  Toast.registry st !! (inr (Toast.counter st) : Toast.Key) = None.
Proof.
  intros Hwf. destruct (Toast.registry st !! _) eqn:E; [|done].
  assert (Toast.counter st < Toast.counter st) by (apply Hwf; eauto). lia.
Qed.

End Store.

(** ** The invariant along executions *)

Section Invariant.

Implicit Types (s : State) (i : nat).

Lemma Inv_init : Inv init.
Proof.
  split; simpl.
  - intros i. by destruct i.
  - done.
  - constructor.
  - apply wf_empty.
Qed.

Lemma Inv_mutate s :
  Inv s → Inv (snd (mutate useSyncDseBrokerData s)).
Proof.
  intros [Hc Hi Hd Hs]. split; simpl; [| |done|done].
  - intros i. rewrite Hc.
    destruct (decide (i < length (invocations s))) as [Hlt|Hge].
    + by rewrite lookup_app_l.
    + rewrite (lookup_ge_None_2 (invocations s) i) by lia.
      rewrite lookup_app_r by lia.
      by destruct (i - length (invocations s)) as [|[|k]].
  - rewrite !length_app. simpl. lia.
Qed.

Lemma Inv_finish s i n st :
  Inv s →
  invocations s !! i = Some (Pending n) →
  Inv (finish s i st (expected_calls (Some st))).
Proof.
  intros [Hc Hi Hd Hs] Hp. split; simpl.
  - intros j. rewrite calls_of_app, calls_of_tagged, Hc.
    destruct (decide (i = j)) as [<-|Hne].
    + rewrite Hp. simpl.
      rewrite list_lookup_insert_eq by (by eapply lookup_lt_Some). done.
    + rewrite list_lookup_insert_ne by done. by rewrite app_nil_r.
  - by rewrite length_insert.
  - apply Forall_app. split; [done|].
    destruct st as [n'|d|e]; repeat constructor.
  - by apply wf_apply_all.
Qed.

Lemma Inv_step s ev s' :
  Inv s → step useSyncDseBrokerData s ev = Some s' → Inv s'.
Proof.
  intros HI. destruct ev as [|i o].
  - intros [= <-]. by apply Inv_mutate.
  - intros H. apply step_settle in H as (n & st & Hp & _ & ->).
    by eapply Inv_finish.
Qed.

Lemma Inv_run evs s s' :
  Inv s → run useSyncDseBrokerData s evs = Some s' → Inv s'.
Proof. apply (run_preserves Inv Inv_step). Qed.

Lemma Inv_reachable s : reachable useSyncDseBrokerData s → Inv s.
Proof. intros [evs H]. eapply Inv_run; [apply Inv_init | done]. Qed.

End Invariant.

(** ** The notifications of a failing invocation *)

Section Failure.

Implicit Types (s : State) (i : nat) (e : Js.Value).

(** The text of the error notification, as a function of the failure. *)
Lemma onError_text e :
  ∃ msg,
    onError e
    = [Toast.error ("Failed to start DSE sync: " +:+ msg) Toast.no_options]
    ∧ (∀ name m props, e = Js.JsError name m props → msg = m)
    ∧ (Js.instanceof_Error e = false → msg = "Unknown error").
Proof.
  destruct e; (eexists; split; [reflexivity|]); split;
    try discriminate; try done.
  by intros ??? [= _ -> _].
Qed.

Lemma failing_step s i e s' :
  reachable useSyncDseBrokerData s →
  step useSyncDseBrokerData s (Settle i (Rejected e)) = Some s' →
  trace s' = trace s ++ map (pair i) (onError e)
  ∧ calls_of i (trace s') = onError e
  ∧ issued s' = issued s
  ∧ invocations s' !! i = Some (Failed e).
Proof.
  intros Hr Hstep. pose proof (Inv_reachable _ Hr) as HI.
  pose proof (Inv_step _ _ _ HI Hstep) as HI'.
  apply step_rejected in Hstep as [[n Hn] ->].
  assert (Hi : invocations (finish s i (Failed e) (onError e)) !! i
               = Some (Failed e)).
  { simpl. apply list_lookup_insert_eq. by eapply lookup_lt_Some. }
  repeat split; try done.
  by rewrite (inv_calls _ HI'), Hi.
Qed.

(** C1, as stated: whenever the failure value carries a textual message
    field, the error notification shows that message.  It fails on a plain
    object that is not an instance of [Error]: the notification of the
    rejection [{ message: "network down" }] reads "Unknown error". *)
Lemma C1_plain_object_message_not_used :
  let e := Js.JsObject [("message", Js.JsString "network down")] in
  Js.has_textual_message e "network down"
  ∧ trace <$> run useSyncDseBrokerData init [Mutate; Settle 0 (Rejected e)]
    = Some [(0, Toast.error "Failed to start DSE sync: Unknown error"
                  Toast.no_options)]
  ∧ trace <$> run useSyncDseBrokerData init [Mutate; Settle 0 (Rejected e)]
    ≠ Some [(0, Toast.error "Failed to start DSE sync: network down"
                  Toast.no_options)].
Proof. simpl. split; [reflexivity|]. split; [reflexivity|discriminate]. Qed.

(** C1, amended: a failing invocation emits exactly one notification, an
    error notification without options whose text is the prefix
    "Failed to start DSE sync: " followed by the extracted message; when
    the failure value is an instance of [Error], the extracted message is
    its message, so that an [Error] with message "network down" yields
    "Failed to start DSE sync: network down". *)
Theorem C1_error_notification s i e s' :
  reachable useSyncDseBrokerData s →
  step useSyncDseBrokerData s (Settle i (Rejected e)) = Some s' →
  ∃ msg,
    let text := "Failed to start DSE sync: " +:+ msg in
    trace s' = trace s ++ [(i, Toast.error text Toast.no_options)]
    ∧ calls_of i (trace s') = [Toast.error text Toast.no_options]
    ∧ (∀ name m props, e = Js.JsError name m props → msg = m)
    ∧ (e = Js.JsError "Error" "network down" [] →
       text = "Failed to start DSE sync: network down").
Proof.
  intros Hr Hstep.
  destruct (failing_step _ _ _ _ Hr Hstep) as (Ht & Hc & _ & _).
  destruct (onError_text e) as (msg & Hmsg & Herr & _).
  exists msg. simpl. rewrite Hc, Ht, Hmsg. repeat split; try done.
  intros He. by rewrite (Herr _ _ _ He).
Qed.

Lemma C1_error_notification_witness :
  let e := Js.JsError "Error" "network down" [] in
  let s := snd (mutate useSyncDseBrokerData init) in
  let s' := finish s 0 (Failed e) (onError e) in
  reachable useSyncDseBrokerData s
  ∧ step useSyncDseBrokerData s (Settle 0 (Rejected e)) = Some s'
  ∧ ∃ msg,
      let text := "Failed to start DSE sync: " +:+ msg in
      trace s' = trace s ++ [(0, Toast.error text Toast.no_options)]
      ∧ calls_of 0 (trace s') = [Toast.error text Toast.no_options]
      ∧ (∀ name m props, e = Js.JsError name m props → msg = m)
      ∧ (e = Js.JsError "Error" "network down" [] →
         text = "Failed to start DSE sync: network down").
Proof.
  intros e s s'.
  assert (Hr : reachable useSyncDseBrokerData s)
    by (exists [Mutate]; reflexivity).
  assert (Hs : step useSyncDseBrokerData s (Settle 0 (Rejected e)) = Some s')
    by reflexivity.
  exact (conj Hr (conj Hs (C1_error_notification s 0 e s' Hr Hs))).
Defined.

(** C4: when the failure value is a bare value, which has no [message]
    field (a plain string, [undefined], ...), the error notification reads
    exactly "Failed to start DSE sync: Unknown error". *)
Theorem C4_bare_value_unknown_error s i e s' :
  Js.bare e = true →
  step useSyncDseBrokerData s (Settle i (Rejected e)) = Some s' →
  Js.message_field e = None
  ∧ trace s'
    = trace s
      ++ [(i, Toast.error "Failed to start DSE sync: Unknown error"
              Toast.no_options)].
Proof.
  intros Hb Hstep. apply step_rejected in Hstep as [_ ->].
  by destruct e.
Qed.

Lemma C4_bare_value_unknown_error_witness :
  let s := snd (mutate useSyncDseBrokerData init) in
  let unknown :=
    Toast.error "Failed to start DSE sync: Unknown error" Toast.no_options in
  let after e := finish s 0 (Failed e) (onError e) in
  (Js.bare (Js.JsString "boom") = true
   ∧ step useSyncDseBrokerData s (Settle 0 (Rejected (Js.JsString "boom")))
     = Some (after (Js.JsString "boom"))
   ∧ Js.message_field (Js.JsString "boom") = None
   ∧ trace (after (Js.JsString "boom")) = trace s ++ [(0, unknown)])
  ∧ (Js.bare Js.JsUndefined = true
     ∧ step useSyncDseBrokerData s (Settle 0 (Rejected Js.JsUndefined))
       = Some (after Js.JsUndefined)
     ∧ Js.message_field Js.JsUndefined = None
     ∧ trace (after Js.JsUndefined) = trace s ++ [(0, unknown)]).
Proof.
  intros s unknown after. split.
  - split; [reflexivity|]. split; [reflexivity|].
    apply (C4_bare_value_unknown_error s 0 (Js.JsString "boom")); reflexivity.
  - split; [reflexivity|]. split; [reflexivity|].
    apply (C4_bare_value_unknown_error s 0 Js.JsUndefined); reflexivity.
Defined.

(** C5: the message of the failure value is used only when the value is
    an instance of [Error]: for a failure value that is not one and that
    carries a textual [message] field, the error notification reads
    "Failed to start DSE sync: Unknown error"; it is not the prefix
    followed by that message (unless the message is itself the text
    "Unknown error"). *)
Theorem C5_message_only_from_Error s i e m s' :
  Js.instanceof_Error e = false →
  Js.has_textual_message e m →
  step useSyncDseBrokerData s (Settle i (Rejected e)) = Some s' →
  (∃ props, e = Js.JsObject props)
  ∧ trace s'
    = trace s
      ++ [(i, Toast.error "Failed to start DSE sync: Unknown error"
              Toast.no_options)]
  ∧ (m ≠ "Unknown error" →
     trace s'
     ≠ trace s
       ++ [(i, Toast.error ("Failed to start DSE sync: " +:+ m)
               Toast.no_options)]).
Proof.
  intros Hne Hm Hstep. apply step_rejected in Hstep as [_ ->].
  destruct e; try discriminate. split; [by eexists|]. split; [done|].
  intros Hm' Heq. simpl in Heq. apply app_inv_head in Heq.
  injection Heq as Heq. by apply String.app_inj in Heq.
Qed.

Lemma C5_message_only_from_Error_witness :
  let e := Js.JsObject [("code", Js.JsNumber 503);
                        ("message", Js.JsString "network down")] in
  let s := snd (mutate useSyncDseBrokerData init) in
  let s' := finish s 0 (Failed e) (onError e) in
  Js.instanceof_Error e = false
  ∧ Js.has_textual_message e "network down"
  ∧ step useSyncDseBrokerData s (Settle 0 (Rejected e)) = Some s'
  ∧ (∃ props, e = Js.JsObject props)
  ∧ trace s'
    = trace s
      ++ [(0, Toast.error "Failed to start DSE sync: Unknown error"
              Toast.no_options)]
  ∧ ("network down" ≠ "Unknown error" →
     trace s'
     ≠ trace s
       ++ [(0, Toast.error ("Failed to start DSE sync: " +:+ "network down")
               Toast.no_options)]).
Proof.
  intros e s s'.
  split; [reflexivity|]. split; [reflexivity|]. split; [reflexivity|].
  apply (C5_message_only_from_Error s 0 e "network down" s'); reflexivity.
Defined.

End Failure.

(** ** What later events leave in place *)

Section Stability.

Implicit Types (s : State) (i : nat) (st : Status).

(** A settled invocation keeps its status. *)
Lemma step_settled_stable s ev s' i st :
  invocations s !! i = Some st →
  settled st = true →
  step useSyncDseBrokerData s ev = Some s' →
  invocations s' !! i = Some st.
Proof.
  intros Hi Hst. destruct ev as [|j o].
  - intros [= <-]. simpl. rewrite lookup_app_l; [done|].
    by eapply lookup_lt_Some.
  - intros H. apply step_settle in H as (n & st' & Hp & _ & ->). simpl.
    rewrite list_lookup_insert_ne; [done|].
    intros ->. rewrite Hp in Hi. by injection Hi as <-.
Qed.

Lemma run_settled_stable evs s s' i st :
  invocations s !! i = Some st →
  settled st = true →
  run useSyncDseBrokerData s evs = Some s' →
  invocations s' !! i = Some st.
Proof.
  intros Hi Hst. revert Hi.
  apply (run_preserves (λ s, invocations s !! i = Some st)).
  intros s0 ev s1 H0. by apply step_settled_stable.
Qed.

(** The calls made for a settled invocation are those of its callback, at
    every later point of the execution. *)
Lemma run_settled_calls evs s s' i st :
  Inv s →
  invocations s !! i = Some st →
  settled st = true →
  run useSyncDseBrokerData s evs = Some s' →
  calls_of i (trace s') = expected_calls (Some st).
Proof.
  intros HI Hi Hst Hrun.
  rewrite (inv_calls _ (Inv_run _ _ _ HI Hrun)).
  by rewrite (run_settled_stable _ _ _ _ _ Hi Hst Hrun).
Qed.

(** The store at a key chosen by a caller, across one step. *)
Lemma step_store_keyed s ev s' (k : string) :
  step useSyncDseBrokerData s ev = Some s' →
  Toast.registry (store s') !! (inl k : Toast.Key)
  = match ev with
    | Settle _ (Resolved _) =>
        if decide (k = "dse-broker-sync-start")
        then Some {| Toast.severity := Toast.Loading;
                     Toast.text := "Syncing DSE broker data..." |}
        else Toast.registry (store s) !! (inl k : Toast.Key)
    | _ => Toast.registry (store s) !! (inl k : Toast.Key)
    end.
Proof.
  destruct ev as [|i [d|e]].
  - by intros [= <-].
  - intros H. apply step_resolved in H as [_ ->]. simpl.
    case_decide as Hk.
    + subst k. apply lookup_insert_eq.
    + by rewrite lookup_insert_ne by congruence.
  - intros H. apply step_rejected in H as [_ ->]. simpl.
    by rewrite lookup_insert_ne.
Qed.

Lemma run_keeps_loading evs s s' (key : Toast.Key) (n : Toast.Notification) :
  key = inl "dse-broker-sync-start" →
  n = {| Toast.severity := Toast.Loading;
         Toast.text := "Syncing DSE broker data..." |} →
  Toast.registry (store s) !! key = Some n →
  run useSyncDseBrokerData s evs = Some s' →
  Toast.registry (store s') !! key = Some n.
Proof.
  intros -> ->.
  apply (run_preserves
           (λ s, Toast.registry (store s) !! (inl _ : Toast.Key) = Some _)).
  intros s0 ev s1 H0 E. rewrite (step_store_keyed _ _ _ _ E).
  by destruct ev as [|i [d|e]].
Qed.

End Stability.

(** ** The notification of a successful invocation *)

Section Success.

Implicit Types (s : State) (i : nat) (d : Js.Value).

(** C2: a successful invocation emits exactly one notification, the
    loading notification keyed "dse-broker-sync-start" with the text
    "Syncing DSE broker data...": nothing was emitted for the invocation
    before it, and at every later point of the execution it is still all
    that was emitted for the invocation. *)
Theorem C2_loading_notification s i d s' evs s'' :
  reachable useSyncDseBrokerData s →
  step useSyncDseBrokerData s (Settle i (Resolved d)) = Some s' →
  run useSyncDseBrokerData s' evs = Some s'' →
  let notification :=
    Toast.loading "Syncing DSE broker data..."
      {| Toast.id := Some "dse-broker-sync-start" |} in
  calls_of i (trace s) = []
  ∧ trace s' = trace s ++ [(i, notification)]
  ∧ calls_of i (trace s'') = [notification].
Proof.
  intros Hr Hstep Hrun. pose proof (Inv_reachable _ Hr) as HI.
  pose proof (Inv_step _ _ _ HI Hstep) as HI'.
  apply step_resolved in Hstep as [[n Hn] ->]. simpl.
  split; [by rewrite (inv_calls _ HI), Hn|]. split; [done|].
  rewrite (run_settled_calls evs _ s'' i (Success d) HI'); try done.
  simpl. apply list_lookup_insert_eq. by eapply lookup_lt_Some.
Qed.

Lemma C2_loading_notification_witness :
  let e := Js.JsError "Error" "network down" [] in
  let s := snd (mutate useSyncDseBrokerData
                  (snd (mutate useSyncDseBrokerData init))) in
  let s' := finish s 1 (Success Js.JsUndefined) (onSuccess Js.JsUndefined) in
  let evs := [Settle 0 (Rejected e)] in
  let s'' := finish s' 0 (Failed e) (onError e) in
  let notification :=
    Toast.loading "Syncing DSE broker data..."
      {| Toast.id := Some "dse-broker-sync-start" |} in
  reachable useSyncDseBrokerData s
  ∧ step useSyncDseBrokerData s (Settle 1 (Resolved Js.JsUndefined)) = Some s'
  ∧ run useSyncDseBrokerData s' evs = Some s''
  ∧ calls_of 1 (trace s) = []
  ∧ trace s' = trace s ++ [(1, notification)]
  ∧ calls_of 1 (trace s'') = [notification].
Proof.
  intros e s s' evs s'' notification.
  assert (Hr : reachable useSyncDseBrokerData s)
    by (exists [Mutate; Mutate]; reflexivity).
  split; [exact Hr|]. split; [reflexivity|]. split; [reflexivity|].
  apply (C2_loading_notification s 1 Js.JsUndefined s' evs s'' Hr);
    reflexivity.
Defined.

End Success.

(** ** The loading notification stays as emitted *)

Section Frame.

Implicit Types (s : State) (i : nat) (d : Js.Value).

(** C9: after a successful invocation has emitted its loading
    notification, the hook makes no further call on behalf of that
    invocation, never calls [dismiss], and leaves the notification state
    under the key "dse-broker-sync-start" as that emission set it, at every
    later point of the execution. *)
Theorem C9_loading_notification_left_in_place s i d s' evs s'' :
  reachable useSyncDseBrokerData s →
  step useSyncDseBrokerData s (Settle i (Resolved d)) = Some s' →
  run useSyncDseBrokerData s' evs = Some s'' →
  calls_of i (trace s'')
  = [Toast.loading "Syncing DSE broker data..."
       {| Toast.id := Some "dse-broker-sync-start" |}]
  ∧ Forall (λ p, Toast.is_dismiss (snd p) = false) (trace s'')
  ∧ Toast.registry (store s') !! (inl "dse-broker-sync-start" : Toast.Key)
    = Some {| Toast.severity := Toast.Loading;
              Toast.text := "Syncing DSE broker data..." |}
  ∧ Toast.registry (store s'') !! (inl "dse-broker-sync-start" : Toast.Key)
    = Toast.registry (store s') !! (inl "dse-broker-sync-start" : Toast.Key).
Proof.
  intros Hr Hstep Hrun. pose proof (Inv_reachable _ Hr) as HI.
  pose proof (Inv_step _ _ _ HI Hstep) as HI'.
  pose proof (step_store_keyed _ _ _ "dse-broker-sync-start" Hstep) as Hk.
  simpl in Hk.
  apply step_resolved in Hstep as [[n Hn] ->].
  split.
  { rewrite (run_settled_calls evs _ s'' i (Success d) HI'); try done.
    simpl. apply list_lookup_insert_eq. by eapply lookup_lt_Some. }
  split; [apply (inv_no_dismiss _ (Inv_run _ _ _ HI' Hrun))|].
  split; [exact Hk|].
  rewrite Hk. by eapply run_keeps_loading.
Qed.

Lemma C9_loading_notification_left_in_place_witness :
  let e := Js.JsError "TypeError" "Load failed" [] in
  let s := snd (mutate useSyncDseBrokerData
                  (snd (mutate useSyncDseBrokerData init))) in
  let s' := finish s 1 (Success Js.JsUndefined) (onSuccess Js.JsUndefined) in
  let evs := [Settle 0 (Rejected e); Mutate; Settle 2 (Resolved Js.JsNull)] in
  let s1 := finish s' 0 (Failed e) (onError e) in
  let s2 := snd (mutate useSyncDseBrokerData s1) in
  let s'' := finish s2 2 (Success Js.JsNull) (onSuccess Js.JsNull) in
  let key : Toast.Key := inl "dse-broker-sync-start" in
  reachable useSyncDseBrokerData s
  ∧ step useSyncDseBrokerData s (Settle 1 (Resolved Js.JsUndefined)) = Some s'
  ∧ run useSyncDseBrokerData s' evs = Some s''
  ∧ calls_of 1 (trace s'')
    = [Toast.loading "Syncing DSE broker data..."
         {| Toast.id := Some "dse-broker-sync-start" |}]
  ∧ Forall (λ p, Toast.is_dismiss (snd p) = false) (trace s'')
  ∧ Toast.registry (store s') !! key
    = Some {| Toast.severity := Toast.Loading;
              Toast.text := "Syncing DSE broker data..." |}
  ∧ Toast.registry (store s'') !! key = Toast.registry (store s') !! key.
Proof.
  intros e s s' evs s1 s2 s'' key.
  assert (Hr : reachable useSyncDseBrokerData s)
    by (exists [Mutate; Mutate]; reflexivity).
  split; [exact Hr|]. split; [reflexivity|]. split; [reflexivity|].
  apply (C9_loading_notification_left_in_place
           s 1 Js.JsUndefined s' evs s'' Hr);
    reflexivity.
Defined.

End Frame.

(** ** One notification per outcome *)

Section Outcomes.

Implicit Types (s : State) (i : nat).

Lemma run_invocations_length evs s s' :
  run useSyncDseBrokerData s evs = Some s' →
  length (invocations s')
  = length (invocations s) + count_mutate evs.
Proof.
  revert s. induction evs as [|ev evs IH]; intros s; simpl.
  - intros [= <-]. lia.
  - first_step E.
    intros Hrun. rewrite (IH _ Hrun). destruct ev as [|i o].
    + injection E as <-. simpl. rewrite length_app. simpl. lia.
    + apply step_settle in E as (n & st & _ & _ & ->). simpl.
      by rewrite length_insert.
Qed.

Lemma expected_calls_length (st : option Status) :
  length (expected_calls st)
  = match st with
    | Some st => if settled st then 1 else 0
    | None => 0
    end.
Proof. by destruct st as [[n|d|e]|]. Qed.

Lemma calls_of_elem i (c : Toast.Call) (tr : list (nat * Toast.Call)) :
  (i, c) ∈ tr → c ∈ calls_of i tr.
Proof.
  intros H. unfold calls_of.
  apply (list_elem_of_fmap_2 snd _ (i, c)). by apply list_elem_of_filter.
Qed.

(** C3: in every execution, an invocation that has completed with an
    outcome has emitted exactly one notification: the loading
    notification when it succeeded, an error notification when it
    failed. *)
Theorem C3_one_notification_per_outcome s i st :
  reachable useSyncDseBrokerData s →
  invocations s !! i = Some st →
  settled st = true →
  length (calls_of i (trace s)) = 1
  ∧ ((∃ d, st = Success d
        ∧ calls_of i (trace s)
          = [Toast.loading "Syncing DSE broker data..."
               {| Toast.id := Some "dse-broker-sync-start" |}])
     ∨ (∃ e text, st = Failed e
          ∧ calls_of i (trace s)
            = [Toast.error text Toast.no_options])).
Proof.
  intros Hr Hi Hst. pose proof (Inv_reachable _ Hr) as HI.
  rewrite (inv_calls _ HI), Hi.
  destruct st as [n|d|e]; [done| |]; (split; [done|]).
  - left. by exists d.
  - right. destruct (onError_text e) as (msg & Hmsg & _).
    exists e. eexists. split; [done|]. exact Hmsg.
Qed.

Lemma C3_one_notification_per_outcome_witness :
  let e := Js.JsString "offline" in
  let s0 := snd (mutate useSyncDseBrokerData
                   (snd (mutate useSyncDseBrokerData init))) in
  let s1 := finish s0 0 (Failed e) (onError e) in
  let s := finish s1 1 (Success Js.JsUndefined) (onSuccess Js.JsUndefined) in
  reachable useSyncDseBrokerData s
  ∧ invocations s !! 0 = Some (Failed e)
  ∧ settled (Failed e) = true
  ∧ length (calls_of 0 (trace s)) = 1
  ∧ ((∃ d, Failed e = Success d
        ∧ calls_of 0 (trace s)
          = [Toast.loading "Syncing DSE broker data..."
               {| Toast.id := Some "dse-broker-sync-start" |}])
     ∨ (∃ e' text, Failed e = Failed e'
          ∧ calls_of 0 (trace s) = [Toast.error text Toast.no_options])).
Proof.
  intros e s0 s1 s.
  assert (Hr : reachable useSyncDseBrokerData s).
  { exists [Mutate; Mutate; Settle 0 (Rejected e);
            Settle 1 (Resolved Js.JsUndefined)].
    reflexivity. }
  split; [exact Hr|]. split; [reflexivity|]. split; [reflexivity|].
  apply (C3_one_notification_per_outcome s 0 (Failed e) Hr); reflexivity.
Defined.

(** C7: in every execution, each notification emitted belongs to an
    invocation of the trigger made before it, so that nothing is emitted
    before the trigger is invoked, and no invocation has more than one
    notification. *)
Theorem C7_no_notification_without_invocation evs s :
  run useSyncDseBrokerData init evs = Some s →
  (count_mutate evs = 0 → trace s = [])
  ∧ (∀ i c, (i, c) ∈ trace s → i < count_mutate evs)
  ∧ (∀ i, length (calls_of i (trace s)) ≤ 1).
Proof.
  intros Hrun.
  pose proof (Inv_run _ _ _ Inv_init Hrun) as HI.
  pose proof (run_invocations_length _ _ _ Hrun) as Hlen. simpl in Hlen.
  assert (Hin : ∀ i c, (i, c) ∈ trace s → i < count_mutate evs).
  { intros i c Hic. apply calls_of_elem in Hic.
    rewrite (inv_calls _ HI) in Hic. rewrite <- Hlen.
    destruct (invocations s !! i) as [st|] eqn:E.
    - by eapply lookup_lt_Some.
    - simpl in Hic. by apply elem_of_nil in Hic. }
  split; [|split; [exact Hin|]].
  - intros H0. destruct (trace s) as [|[i c] tr] eqn:E; [done|].
    specialize (Hin i c). rewrite H0 in Hin.
    assert (i < 0) by (apply Hin; left). lia.
  - intros i. rewrite (inv_calls _ HI), expected_calls_length.
    destruct (invocations s !! i) as [st|]; [|lia].
    destruct (settled st); lia.
Qed.

Lemma C7_no_notification_without_invocation_witness :
  let e := Js.JsError "Error" "network down" [] in
  let evs := [Mutate; Settle 0 (Rejected e); Mutate; Mutate;
              Settle 2 (Resolved Js.JsUndefined)] in
  let s1 := finish (snd (mutate useSyncDseBrokerData init))
              0 (Failed e) (onError e) in
  let s2 := snd (mutate useSyncDseBrokerData
                   (snd (mutate useSyncDseBrokerData s1))) in
  let s := finish s2 2 (Success Js.JsUndefined) (onSuccess Js.JsUndefined) in
  run useSyncDseBrokerData init evs = Some s
  ∧ (count_mutate evs = 0 → trace s = [])
  ∧ (∀ i c, (i, c) ∈ trace s → i < count_mutate evs)
  ∧ (∀ i, length (calls_of i (trace s)) ≤ 1).
Proof.
  intros e evs s1 s2 s.
  split; [reflexivity|].
  apply (C7_no_notification_without_invocation evs s).
  reflexivity.
Defined.

End Outcomes.

(** ** Invoking the trigger, and what a failure leaves behind *)

Section Trigger.

Implicit Types (s : State) (i : nat) (e : Js.Value).

(** C6: invoking the trigger returns normally in every state and emits
    nothing by itself; whatever the outcome of the call it issued, the
    invocation settles through the success callback or the error
    callback, and through nothing else. *)
Theorem C6_trigger_never_throws s :
  let i := length (invocations s) in
  let s1 := snd (mutate useSyncDseBrokerData s) in
  fst (mutate useSyncDseBrokerData s) = Normal
  ∧ trace s1 = trace s
  ∧ invocations s1 !! i = Some (Pending 0)
  ∧ ∀ o, ∃ s2,
      step useSyncDseBrokerData s1 (Settle i o) = Some s2
      ∧ trace s2 = trace s ++ map (pair i) (surfaced o)
      ∧ issued s2 = issued s1.
Proof.
  intros i s1.
  assert (Hi : invocations s1 !! i = Some (Pending 0)).
  { subst i s1. simpl. rewrite lookup_app_r by lia. by rewrite Nat.sub_diag. }
  repeat split; try done.
  intros o. simpl. unfold complete. rewrite Hi.
  destruct o as [d|e]; eexists; (split; [reflexivity|done]).
Qed.

(** C8: a failure is terminal for its invocation.  The failing settlement
    issues no new call of the sync service, and later on calls are issued
    by invocations of the trigger only; the invocation stays failed, with
    the failure value kept as its error field, and cannot settle again;
    the trigger still returns normally; all that the hook did about the
    failure is one error notification. *)
Theorem C8_failure_is_terminal s i e s' evs s'' :
  reachable useSyncDseBrokerData s →
  step useSyncDseBrokerData s (Settle i (Rejected e)) = Some s' →
  run useSyncDseBrokerData s' evs = Some s'' →
  issued s' = issued s
  ∧ length (issued s'') = length (issued s) + count_mutate evs
  ∧ invocations s'' !! i = Some (Failed e)
  ∧ (∀ o, step useSyncDseBrokerData s'' (Settle i o) = None)
  ∧ fst (mutate useSyncDseBrokerData s'') = Normal
  ∧ ∃ text, calls_of i (trace s'') = [Toast.error text Toast.no_options].
Proof.
  intros Hr Hstep Hrun. pose proof (Inv_reachable _ Hr) as HI.
  pose proof (Inv_step _ _ _ HI Hstep) as HI'.
  pose proof (Inv_run _ _ _ HI' Hrun) as HI''.
  destruct (failing_step _ _ _ _ Hr Hstep) as (_ & _ & Hiss & Hf).
  pose proof (run_settled_stable _ _ _ _ _ Hf eq_refl Hrun) as Hf''.
  split; [done|]. split.
  { rewrite (inv_issued _ HI''), (run_invocations_length _ _ _ Hrun).
    by rewrite <- (inv_issued _ HI'), Hiss. }
  split; [done|]. split.
  { intros o. simpl. unfold complete. by rewrite Hf''. }
  split; [done|].
  rewrite (inv_calls _ HI''), Hf''.
  destruct (onError_text e) as (msg & Hmsg & _). eexists. exact Hmsg.
Qed.

Lemma C8_failure_is_terminal_witness :
  let e := Js.JsError "Error" "network down" [] in
  let s := snd (mutate useSyncDseBrokerData init) in
  let s' := finish s 0 (Failed e) (onError e) in
  let evs := [Mutate; Settle 1 (Rejected Js.JsUndefined)] in
  let s1 := snd (mutate useSyncDseBrokerData s') in
  let s'' := finish s1 1 (Failed Js.JsUndefined) (onError Js.JsUndefined) in
  reachable useSyncDseBrokerData s
  ∧ step useSyncDseBrokerData s (Settle 0 (Rejected e)) = Some s'
  ∧ run useSyncDseBrokerData s' evs = Some s''
  ∧ issued s' = issued s
  ∧ length (issued s'') = length (issued s) + count_mutate evs
  ∧ invocations s'' !! 0 = Some (Failed e)
  ∧ (∀ o, step useSyncDseBrokerData s'' (Settle 0 o) = None)
  ∧ fst (mutate useSyncDseBrokerData s'') = Normal
  ∧ ∃ text, calls_of 0 (trace s'') = [Toast.error text Toast.no_options].
Proof.
  intros e s s' evs s1 s''.
  assert (Hr : reachable useSyncDseBrokerData s)
    by (exists [Mutate]; reflexivity).
  split; [exact Hr|]. split; [reflexivity|]. split; [reflexivity|].
  apply (C8_failure_is_terminal s 0 e s' evs s'' Hr); reflexivity.
Defined.

End Trigger.

(** ** Error notifications carry no key *)

Section Unkeyed.

Implicit Types (s : State) (st : Toast.Store).

(** A failing settlement adds one notification to the store, under a key
    of its own. *)
Lemma rejected_step_store s i e s' :
  Inv s →
  step useSyncDseBrokerData s (Settle i (Rejected e)) = Some s' →
  size (Toast.registry (store s')) = S (size (Toast.registry (store s)))
  ∧ Toast.registry (store s) ⊆ Toast.registry (store s')
  ∧ ∃ text, trace s' = trace s ++ [(i, Toast.error text Toast.no_options)].
Proof.
  intros HI Hstep. apply step_rejected in Hstep as [_ ->].
  pose proof (counter_fresh _ (inv_store _ HI)) as Hfresh.
  simpl. split; [|split].
  - by apply map_size_insert_None.
  - by apply insert_subseteq.
  - by eexists.
Qed.

Lemma run_rejections evs s s' :
  Inv s →
  Forall (λ ev, is_rejection ev = true) evs →
  run useSyncDseBrokerData s evs = Some s' →
  (∃ new, trace s' = trace s ++ new
          ∧ length new = length evs
          ∧ Forall (λ p, Toast.call_id (snd p) = None) new)
  ∧ size (Toast.registry (store s'))
    = size (Toast.registry (store s)) + length evs
  ∧ Toast.registry (store s) ⊆ Toast.registry (store s').
Proof.
  intros HI Hrej. revert s HI.
  induction Hrej as [|ev evs Hev Hrej IH]; intros s HI; simpl.
  - intros [= <-]. split; [|split; [lia|done]].
    exists []. by rewrite app_nil_r.
  - first_step E.
    intros Hrun.
    destruct (IH _ (Inv_step _ _ _ HI E) Hrun)
      as ((new & Ht & Hl & Hn) & Hsz & Hsub).
    destruct ev as [|i [d|e]]; try discriminate.
    destruct (rejected_step_store _ _ _ _ HI E) as (Hsz1 & Hsub1 & text & Ht1).
    split; [|split].
    + exists ((i, Toast.error text Toast.no_options) :: new).
      rewrite Ht, Ht1, <- app_assoc. simpl. split; [done|].
      split; [by rewrite Hl|]. by constructor.
    + rewrite Hsz, Hsz1. lia.
    + by etrans.
Qed.

(** C10: a failing invocation emits its error notification without an
    identifier; along a run of failing settlements every one of them adds
    a notification to the store and all earlier notifications stay in
    place, whereas the loading notification always goes under one key. *)
Theorem C10_error_notifications_unkeyed evs s s' :
  reachable useSyncDseBrokerData s →
  Forall (λ ev, is_rejection ev = true) evs →
  run useSyncDseBrokerData s evs = Some s' →
  (∃ new, trace s' = trace s ++ new
          ∧ length new = length evs
          ∧ Forall (λ p, Toast.call_id (snd p) = None) new)
  ∧ size (Toast.registry (store s'))
    = size (Toast.registry (store s)) + length evs
  ∧ Toast.registry (store s) ⊆ Toast.registry (store s')
  ∧ (∀ d, Toast.call_id <$> onSuccess d = [Some "dse-broker-sync-start"]).
Proof.
  intros Hr Hrej Hrun.
  destruct (run_rejections _ _ _ (Inv_reachable _ Hr) Hrej Hrun)
    as (Ht & Hsz & Hsub).
  done.
Qed.

Lemma C10_error_notifications_unkeyed_witness :
  let e := Js.JsError "Error" "network down" [] in
  let s := snd (mutate useSyncDseBrokerData
                  (snd (mutate useSyncDseBrokerData init))) in
  let evs := [Settle 0 (Rejected e); Settle 1 (Rejected e)] in
  let s' := finish (finish s 0 (Failed e) (onError e))
              1 (Failed e) (onError e) in
  reachable useSyncDseBrokerData s
  ∧ Forall (λ ev, is_rejection ev = true) evs
  ∧ run useSyncDseBrokerData s evs = Some s'
  ∧ (∃ new, trace s' = trace s ++ new
            ∧ length new = length evs
            ∧ Forall (λ p, Toast.call_id (snd p) = None) new)
  ∧ size (Toast.registry (store s'))
    = size (Toast.registry (store s)) + length evs
  ∧ Toast.registry (store s) ⊆ Toast.registry (store s')
  ∧ (∀ d, Toast.call_id <$> onSuccess d = [Some "dse-broker-sync-start"]).
Proof.
  intros e s evs s'.
  assert (Hr : reachable useSyncDseBrokerData s)
    by (exists [Mutate; Mutate]; reflexivity).
  assert (Hrej : Forall (λ ev, is_rejection ev = true) evs)
    by (repeat constructor).
  split; [exact Hr|]. split; [exact Hrej|]. split; [reflexivity|].
  apply (C10_error_notifications_unkeyed evs s s' Hr Hrej); reflexivity.
Defined.

End Unkeyed.

(** ** The text of the error notification *)

Section ErrorText.

Implicit Types (e : Js.Value) (m name : string).





End ErrorText.

(** ** The trace as a function of the events *)

Section Order.

Implicit Types (s : State) (evs : list Event).




End Order.

(** ** The data of a resolved call is never read *)

Section Data.

Implicit Types (s t : State) (evs : list Event).

Lemma same_but_data_pending s t i n :
  same_but_data s t →
  invocations s !! i = Some (Pending n) →
  invocations t !! i = Some (Pending n).
Proof.
  intros [Hinv _] Hs.
  assert (H : (forget_status <$> invocations t) !! i = Some (Pending n)).
  { rewrite <- Hinv, list_lookup_fmap, Hs. done. }
  rewrite list_lookup_fmap in H.
  destruct (invocations t !! i) as [[k|d|e]|]; simpl in H; congruence.
Qed.

Lemma same_but_data_finish s t i st st' cs :
  same_but_data s t →
  forget_status st = forget_status st' →
  same_but_data (finish s i st cs) (finish t i st' cs).
Proof.
  intros (Hinv & Hiss & Htr & Hst) Hf. repeat split; simpl.
  - rewrite !list_fmap_insert. by rewrite Hinv, Hf.
  - done.
  - by rewrite Htr.
  - by rewrite Hst.
Qed.

Lemma same_but_data_step s t ev s' :
  same_but_data s t →
  step useSyncDseBrokerData s ev = Some s' →
  ∃ t', step useSyncDseBrokerData t (forget_data ev) = Some t'
        ∧ same_but_data s' t'.
Proof.
  intros HR Hstep. destruct ev as [|i [d|e]].
  - injection Hstep as <-. eexists. split; [reflexivity|].
    destruct HR as (Hinv & Hiss & Htr & Hst). repeat split; simpl; try done.
    + by rewrite !fmap_app, Hinv.
    + by rewrite Hiss.
  - apply step_resolved in Hstep as [[n Hn] ->].
    pose proof (same_but_data_pending _ _ _ _ HR Hn) as Ht.
    exists (finish t i (Success Js.JsUndefined) (onSuccess Js.JsUndefined)).
    split.
    + simpl. unfold complete. by rewrite Ht.
    + by apply same_but_data_finish.
  - apply step_rejected in Hstep as [[n Hn] ->].
    pose proof (same_but_data_pending _ _ _ _ HR Hn) as Ht.
    exists (finish t i (Failed e) (onError e)). split.
    + simpl. unfold complete. by rewrite Ht.
    + by apply same_but_data_finish.
Qed.

(** X4: the success callback never reads what the sync call returned:
    an execution in which every resolved call carries [undefined] instead
    of its data goes through as well, and ends with the same trace of
    notifications, the same store and the same calls issued. *)
Theorem X4_resolved_data_unused evs s s' :
  run useSyncDseBrokerData s evs = Some s' →
  ∃ t', run useSyncDseBrokerData s (forget_data <$> evs) = Some t'
        ∧ trace t' = trace s'
        ∧ store t' = store s'
        ∧ issued t' = issued s'.
Proof.
  assert (H : ∀ evs s t s',
    same_but_data s t →
    run useSyncDseBrokerData s evs = Some s' →
    ∃ t', run useSyncDseBrokerData t (forget_data <$> evs) = Some t'
          ∧ same_but_data s' t').
  { clear. intros evs. induction evs as [|ev evs IH]; intros s t s' HR; simpl.
    - intros [= <-]. by exists t.
    - first_step E. intros Hrun.
      destruct (same_but_data_step _ _ _ _ HR E) as (t1 & Et & HR1).
      rewrite Et. by eapply IH. }
  intros Hrun.
  destruct (H evs s s s') as (t' & Ht & (_ & Hiss & Htr & Hst)); try done.
  exists t'. by rewrite Htr, Hst, Hiss.
Qed.

Lemma X4_resolved_data_unused_witness :
  let d := Js.JsObject [("synced", Js.JsNumber 12)] in
  let evs := [Mutate; Settle 0 (Resolved d)] in
  let s' := finish (snd (mutate useSyncDseBrokerData init))
              0 (Success d) (onSuccess d) in
  run useSyncDseBrokerData init evs = Some s'
  ∧ ∃ t', run useSyncDseBrokerData init (forget_data <$> evs) = Some t'
          ∧ trace t' = trace s'
          ∧ store t' = store s'
          ∧ issued t' = issued s'.
Proof.
  intros d evs s'.
  assert (Hrun : run useSyncDseBrokerData init evs = Some s') by reflexivity.
  split; [exact Hrun|].
  exact (X4_resolved_data_unused evs init s' Hrun).
Defined.

End Data.

(** ** Invocations in flight are independent *)

Section Independence.

Implicit Types (s t : State) (i j : nat) (o : Outcome).




End Independence.
